(** * ed25519cpp: Base58Check codec and fixed-size key containers

    A shallow embedding of [include/ed25519.hpp]: the [base58::encode<N>] and
    [base58::decode<N>] templates, the [Data<N>] container and the key types
    of namespace [keys], followed by the properties they satisfy.

    The header only declares [base58::crc32], [base58::encode] and
    [base58::decode] on byte vectors; the templates are embedded over an
    interface [Base58Lib] holding these three functions, and module
    [Base58Impl] gives the implementation the specification describes.

    Layout: the data model (arrays, strings, error codes and the lifetime of
    the category an error code points to), the templates and classes of the
    header, the functions defined outside the header, and then the
    properties: first those that hold for every implementation of the
    declared functions, then those of the codec as a whole. *)

From Stdlib Require Import ZArith NArith List String Ascii Bool Lia.
From Stdlib.Strings Require Import Byte.
From Stdlib Require Import Eqdep_dec DecimalString.
Import ListNotations.

Local Open Scope Z_scope.

(* ================================================================= *)
(** * Data model *)

(** [std::vector<unsigned char>]. *)
Definition bytes := list byte.

(** [static_cast<unsigned char>(x)]: the value modulo 256. *)
Definition uchar (x : Z) : byte :=
  match Byte.of_N (Z.to_N (x mod 256)) with
  | Some b => b
  | None => x00
  end.

(** The numeric value of an [unsigned char]. *)
Definition byte_val (b : byte) : Z := Z.of_N (Byte.to_N b).

(** [std::array<unsigned char, N>]: exactly [N] bytes, the size being part
    of the type. *)
Record array (N : nat) : Type := mk_array {
  elems : bytes;
  elems_size : Nat.eqb (List.length elems) N = true
}.
Arguments mk_array {N} _ _.
Arguments elems {N} _.
Arguments elems_size {N} _.

Lemma fill_size (N : nat) (a : array N) (b : byte) :
  Nat.eqb (List.length (map (fun _ => b) (elems a))) N = true.
Proof. rewrite length_map. exact (elems_size a). Qed.

(** [std::array::fill(b)]: every element is assigned [b]. *)
Definition fill {N : nat} (a : array N) (b : byte) : array N :=
  mk_array (map (fun _ => b) (elems a)) (fill_size N a b).

Lemma repeat_size (N : nat) (b : byte) :
  Nat.eqb (List.length (repeat b N)) N = true.
Proof. rewrite repeat_length. apply Nat.eqb_refl. Qed.

(** Value initialisation [std::array<unsigned char, N>()]: all elements
    zero. *)
Definition value_init (N : nat) : array N :=
  mk_array (repeat x00 N) (repeat_size N x00).

(** [std::copy_n(first, n, result)] on the underlying sequences: the first
    [n] elements of the destination are replaced by the first [n] elements of
    the source. *)
Definition copy_n_list (src : bytes) (n : nat) (dst : bytes) : bytes :=
  firstn n src ++ skipn n dst.

Lemma copy_n_size (N : nat) (src : bytes) (dst : array N) :
  List.length src = N -> Nat.eqb (List.length (copy_n_list src N (elems dst))) N = true.
Proof.
  intros Hsrc. apply Nat.eqb_eq. unfold copy_n_list.
  pose proof (elems_size dst) as Hd. apply Nat.eqb_eq in Hd.
  rewrite length_app, length_firstn, length_skipn. lia.
Qed.

(** [std::copy_n(v.begin(), N, data.begin())], reached only with
    [v.size() == N]. *)
Definition copy_n {N : nat} (v : bytes) (data : array N)
    (Hv : List.length v = N) : array N :=
  mk_array (copy_n_list v N (elems data)) (copy_n_size N v data Hv).

(** [std::string::c_str()] handed to a [const std::string&] parameter: the
    string is rebuilt from the C string, which ends at the first NUL. *)
Fixpoint c_str (s : string) : string :=
  match s with
  | EmptyString => EmptyString
  | String c rest =>
      if Ascii.eqb c zero then EmptyString else String c (c_str rest)
  end.

(** [operator<<(std::ostream&, size_t)]: decimal digits. *)
Definition show_size (n : nat) : string :=
  NilEmpty.string_of_uint (Nat.to_uint n).

(** ** Namespace [size] *)
Module size.
Definition hash : nat := 32.
Definition double_hash : nat := hash * 2.
Definition public_key : nat := hash.
Definition digest : nat := hash.
Definition seed : nat := hash.
Definition private_key : nat := double_hash.
Definition signature : nat := double_hash.
End size.

(** ** Errors *)

(** [enum error : int]. *)
Inductive error : Type := BADFORMAT | UNEXPECTED_SIZE | EMPTY.

(** [static_cast<int>(e)]. *)
Definition error_int (e : error) : Z :=
  match e with
  | BADFORMAT => 1000
  | UNEXPECTED_SIZE => 1001
  | EMPTY => 1002
  end.

(** [class error_category]: its only state is the message [mess_]. *)
Record error_category : Type := { mess_ : string }.

(** [error_category()]: the message [mess_] is empty. *)
Definition error_category_default : error_category := {| mess_ := EmptyString |}.

(** Modelled from the spec: the constructor
    [error_category(const std::string &message)] is declared in the header and
    defined outside it; the error carries the human-readable detail it is
    built with, so the constructor stores [message] in [mess_]. *)
Definition error_category_of (message : string) : error_category :=
  {| mess_ := message |}.

(** [const std::error_category*]: the category object pointed to, and
    whether that object still exists where the pointer is used. *)
Record category_ptr : Type := {
  pointee : error_category;
  alive : bool
}.

(** The address of a temporary that is built in the initialiser of a
    declaration and bound to a reference parameter of a constructor: the
    temporary is destroyed when the declaration ends, so the object is gone
    in the statements that follow. *)
Definition temporary (c : error_category) : category_ptr :=
  {| pointee := c; alive := false |}.

(** [std::error_code]: an integer value [val_] and the address [cat_] of its
    category; the constructor
    [error_code(int val, const error_category& cat)] keeps [&cat] and makes
    no copy of the category. *)
Record error_code : Type := {
  val_ : Z;
  cat_ : category_ptr
}.

(** [ec.value()]. *)
Definition ec_value (ec : error_code) : Z := val_ ec.

(** [ec.category()]: the category object, which can be used only while it
    exists; the message of an error is read through it. *)
Definition ec_category (ec : error_code) : option error_category :=
  if alive (cat_ ec) then Some (pointee (cat_ ec)) else None.

(** [ErrorHandler]: a callable taking the error code.  Its effect is a change
    of the handler's own state [W], which is disjoint from the container being
    decoded into; the handler returns normally. *)
Definition ErrorHandler (W : Type) : Type := error_code -> W -> W.


(** A handler that appends every error it receives to a log. *)
Definition log_handler : ErrorHandler (list error_code) :=
  fun ec log => log ++ [ec].

(** The handler [h] called on each error of [calls], in order. *)
Definition run_calls {W : Type} (h : ErrorHandler W) (calls : list error_code)
    (w : W) : W :=
  fold_left (fun st ec => h ec st) calls w.

(* ================================================================= *)
(** * Namespace [base58] *)

(** The functions of namespace [base58] that the header declares and another
    translation unit defines:
    - [uint_least32_t crc32(unsigned char *buf, size_t len)];
    - [std::string encode(const std::vector<unsigned char>& data)];
    - [bool decode(const std::string& str, std::vector<unsigned char>& data)],
      which receives the vector, and returns the flag and the vector. *)
Class Base58Lib : Type := {
  crc32 : bytes -> Z;
  encode : bytes -> string;
  decode : string -> bytes -> bool * bytes
}.

Module base58.
Section Templates.
Context {L : Base58Lib}.

(** [template<size_t N> bool decode(const std::string &base58,
    std::array<unsigned char, N> &data, const ErrorHandler &error)].
    The result is the returned flag, the array afterwards and the handler's
    state afterwards.  In both failing branches the category is a temporary
    of the declaration
    [std::error_code ec(static_cast<int>(...), error_category(...));],
    and the handler is called in the next statement, [error(ec);]. *)
Definition decode_N {N : nat} {W : Type} (base58 : string) (data : array N)
    (error : ErrorHandler W) (w : W) : bool * array N * W :=
  let '(ok, v) := decode (c_str base58) [] in
  if negb ok then
    let ec := {| val_ := error_int BADFORMAT;
                 cat_ := temporary error_category_default |} in
    (false, data, error ec w)
  else
    match Nat.eq_dec (List.length v) N with
    | right _ =>
        let errorMessage :=
          ("size of decoded vector is not equal to expected size: "
             ++ show_size (List.length v) ++ " <> " ++ show_size N)%string in
        let ec := {| val_ := error_int UNEXPECTED_SIZE;
                     cat_ := temporary (error_category_of errorMessage) |} in
        (false, data, error ec w)
    | left Hsize => (true, copy_n v data Hsize, w)
    end.

(** [template<size_t N> std::string encode(const std::array<unsigned char,
    N> &data)]. *)
Definition encode_N {N : nat} (data : array N) : string :=
  let vch := elems data in
  let crc32_ := crc32 vch in
  let vch := vch ++ [uchar (Z.land crc32_ 255)] in
  let vch := vch ++ [uchar (Z.land (Z.shiftr crc32_ 8) 255)] in
  let vch := vch ++ [uchar (Z.land (Z.shiftr crc32_ 16) 255)] in
  let vch := vch ++ [uchar (Z.land (Z.shiftr crc32_ 24) 255)] in
  encode vch.
End Templates.
End base58.

(* ================================================================= *)
(** * [Data<N>] *)

Module Data.
Section Methods.
Context {L : Base58Lib}.

(** [class Data : public std::array<unsigned char, N>, public Base58]. *)
Definition t (N : nat) : Type := array N.

(** [void clean() override { binary_data::fill(0); }] *)
Definition clean {N : nat} (self : t N) : t N := fill self x00.

(** [Data():binary_data() { clean(); }] *)
Definition ctor (N : nat) : t N := clean (value_init N).

(** [const std::string encode() const override]. *)
Definition encode {N : nat} (self : t N) : string := base58.encode_N self.

(** [bool decode(const std::string &base58, const ErrorHandler &error)]. *)
Definition decode {N : nat} {W : Type} (base58 : string) (self : t N)
    (error : ErrorHandler W) (w : W) : bool * t N * W :=
  base58.decode_N base58 self error w.
End Methods.
End Data.

(* ================================================================= *)
(** * Namespace [keys] *)

Module keys.
Section Keys.
Context {L : Base58Lib}.

(** [class Seed: public Data<size::seed>]. *)
Record Seed : Type := mk_Seed { seed_data : Data.t size.seed }.

(** [class Public: public Data<size::public_key>{}]. *)
Record Public : Type := mk_Public { public_data : Data.t size.public_key }.

(** [class Private: public Data<size::private_key>{}]. *)
Record Private : Type := mk_Private { private_data : Data.t size.private_key }.

(** The members inherited from [Data<N>]. *)
Definition Seed_encode (self : Seed) : string := Data.encode (seed_data self).
Definition Public_encode (self : Public) : string :=
  Data.encode (public_data self).

Definition Seed_decode {W : Type} (base58 : string) (self : Seed)
    (error : ErrorHandler W) (w : W) : bool * Seed * W :=
  let '(r, d, w') := Data.decode base58 (seed_data self) error w in
  (r, mk_Seed d, w').

Definition Public_decode {W : Type} (base58 : string) (self : Public)
    (error : ErrorHandler W) (w : W) : bool * Public * W :=
  let '(r, d, w') := Data.decode base58 (public_data self) error w in
  (r, mk_Public d, w').

Definition Private_encode (self : Private) : string :=
  Data.encode (private_data self).

Definition Private_decode {W : Type} (base58 : string) (self : Private)
    (error : ErrorHandler W) (w : W) : bool * Private * W :=
  let '(r, d, w') := Data.decode base58 (private_data self) error w in
  (r, mk_Private d, w').

Definition Public_clean (self : Public) : Public :=
  mk_Public (Data.clean (public_data self)).

Definition Private_clean (self : Private) : Private :=
  mk_Private (Data.clean (private_data self)).

(** [class Pair], with its two private members. *)
Record Pair : Type := mk_Pair {
  publicKey_ : Public;
  privateKey_ : Private
  }.

Definition get_public_key (self : Pair) : Public := publicKey_ self.
Definition get_private_key (self : Pair) : Private := privateKey_ self.

(** [void clean() { publicKey_.clean(); privateKey_.clean(); }] *)
Definition Pair_clean (self : Pair) : Pair :=
  let self := mk_Pair (Public_clean (publicKey_ self)) (privateKey_ self) in
  mk_Pair (publicKey_ self) (Private_clean (privateKey_ self)).

(** [~Pair() { clean(); }]: the state of the members when the body of the
    destructor has run. *)
Definition Pair_dtor (self : Pair) : Pair := Pair_clean self.
End Keys.
End keys.

(* ================================================================= *)
(** * The functions defined outside the header *)

Module Base58Impl.

(** ** CRC32 *)

Definition crc_poly : Z := 0xEDB88320.

(** One bit of the reflected division: shift right, and subtract the
    polynomial when the bit shifted out is set. *)
Definition crc_shift (c : Z) : Z :=
  if Z.testbit c 0 then Z.lxor (Z.shiftr c 1) crc_poly else Z.shiftr c 1.

Definition crc_update (c : Z) (b : byte) : Z :=
  Nat.iter 8 crc_shift (Z.lxor c (byte_val b)).

(** Modelled from the spec: [base58::crc32] is declared in the header and
    defined outside it.  The standard reflected CRC-32: polynomial
    [0xEDB88320], bit by bit, initial value [0xFFFFFFFF], final complement
    (on 32 bits). *)
Definition crc32 (buf : bytes) : Z :=
  Z.land (Z.lnot (fold_left crc_update buf 0xFFFFFFFF)) 0xFFFFFFFF.

(** ** Base58 alphabet codec *)

Definition alphabet : string :=
  "123456789ABCDEFGHJKLMNPQRSTUVWXYZabcdefghijkmnopqrstuvwxyz".

Definition symbols : list ascii := list_ascii_of_string alphabet.

(** The symbol of a base-58 digit. *)
Definition symbol (d : N) : ascii := nth (N.to_nat d) symbols "1"%char.

Fixpoint index_from (c : ascii) (l : list ascii) (i : N) : option N :=
  match l with
  | [] => None
  | x :: rest => if Ascii.eqb c x then Some i else index_from c rest (N.succ i)
  end.

(** The base-58 digit of a character, [None] outside the alphabet. *)
Definition digit (c : ascii) : option N := index_from c symbols 0.

(** The digits of a string, [None] when a character is outside the
    alphabet. *)
Fixpoint digits (cs : list ascii) : option (list N) :=
  match cs with
  | [] => Some []
  | c :: rest =>
      match digit c, digits rest with
      | Some d, Some ds => Some (d :: ds)
      | _, _ => None
      end
  end.

(** The unsigned integer written by [ds] in base [base], most significant
    digit first. *)
Definition of_digits (base : N) (ds : list N) : N :=
  fold_left (fun acc d => (acc * base + d)%N) ds 0%N.

Fixpoint to_digits_aux (fuel : nat) (base n : N) (acc : list N) : list N :=
  match fuel with
  | O => acc
  | S fuel' =>
      if N.eqb n 0 then acc
      else to_digits_aux fuel' base (n / base)%N ((n mod base)%N :: acc)
  end.

(** The digits of [n] in base [base], most significant first and without
    leading zeros (none for 0).  The number of bits of [n] bounds the number
    of divisions. *)
Definition to_digits (base n : N) : list N :=
  to_digits_aux (N.to_nat (N.size n)) base n [].

(** The number of leading zero digits. *)
Fixpoint leading_zeros (ds : list N) : nat :=
  match ds with
  | d :: rest => if N.eqb d 0 then S (leading_zeros rest) else O
  | [] => O
  end.

(** The byte of a base-256 digit. *)
Definition byte_of_digit (d : N) : byte := uchar (Z.of_N d).

(** Modelled from the spec: [base58::encode] on a byte vector is declared in
    the header and defined outside it.  The bytes are read as a big-endian
    unsigned integer in base 256, which is written in base 58 with the
    alphabet; each leading zero byte gives one leading [1]. *)
Definition encode (data : bytes) : string :=
  let ds := map Byte.to_N data in
  string_of_list_ascii
    (repeat "1"%char (leading_zeros ds)
       ++ map symbol (to_digits 58 (of_digits 256 ds))).

(** Modelled from the spec: the Base58 alphabet decoding, the inverse
    transform.  It fails when a character is outside the alphabet, and
    rebuilds one leading zero byte from each leading [1]. *)
Definition decode_alphabet (str : string) : option bytes :=
  match digits (list_ascii_of_string str) with
  | None => None
  | Some ds =>
      Some (repeat x00 (leading_zeros ds)
              ++ map byte_of_digit (to_digits 256 (of_digits 58 ds)))
  end.

(** ** Base58Check codec *)

(** The 32-bit integer whose little-endian bytes are [bs]. *)
Definition le_value (bs : bytes) : Z :=
  fold_right (fun b acc => byte_val b + 256 * acc) 0 bs.

(** Modelled from the spec: the Base58Check decoding.  The string is
    Base58-decoded ([BADFORMAT] when that fails); fewer than 4 bytes is
    [EMPTY]; the CRC32 of the payload is compared with the trailing 4 bytes,
    little-endian ([BADFORMAT] on mismatch); the result is the payload
    alone. *)
Definition decode_check (str : string) : error + bytes :=
  match decode_alphabet str with
  | None => inl BADFORMAT
  | Some raw =>
      if Nat.ltb (List.length raw) 4 then inl EMPTY
      else
        let payload := firstn (List.length raw - 4) raw in
        let checksum := skipn (List.length raw - 4) raw in
        if Z.eqb (crc32 payload) (le_value checksum) then inr payload
        else inl BADFORMAT
  end.

(** Modelled from the spec: [base58::decode] on a byte vector is declared in
    the header and defined outside it.  It is the Base58Check decoding; its
    declared result is a flag, so the kind of a failure is not returned, and
    a failure leaves no partial output in [data]. *)
Definition decode (str : string) (data : bytes) : bool * bytes :=
  match decode_check str with
  | inr payload => (true, payload)
  | inl _ => (false, data)
  end.

End Base58Impl.

(** The interface, implemented as above. *)
#[export] Instance impl : Base58Lib := {|
  crc32 := Base58Impl.crc32;
  encode := Base58Impl.encode;
  decode := Base58Impl.decode
|}.

(* ================================================================= *)
(** * Vocabulary of the properties *)

(** The four bytes of a 32-bit integer in little-endian order, least
    significant byte first, as the wire format is described: byte [k] is
    the [k]-th base-256 digit. *)
Definition little_endian_u32 (x : Z) : bytes :=
  map (fun k => uchar (x / 256 ^ k)) [0; 1; 2; 3].

(** The error of kind [BADFORMAT], error code 1000, built with a category
    without detail that no longer exists. *)
Definition badformat_error : error_code :=
  {| val_ := 1000;
     cat_ := {| pointee := {| mess_ := EmptyString |}; alive := false |} |}.

(** The message that reports the [observed] and the [expected] length. *)
Definition unexpected_size_message (observed expected : nat) : string :=
  ("size of decoded vector is not equal to expected size: "
     ++ show_size observed ++ " <> " ++ show_size expected)%string.

(** The error of kind [UNEXPECTED_SIZE], error code 1001, built with a
    category that held the message and no longer exists. *)
Definition unexpected_size_error (observed expected : nat) : error_code :=
  {| val_ := 1001;
     cat_ := {| pointee := {| mess_ := unexpected_size_message observed expected |};
                alive := false |} |}.

(** The three ways a call of [decode<N>] on [base58] ends, from a container
    [data] and a handler [error] in state [w]. *)
Inductive decode_N_outcome {L : Base58Lib} {N : nat} {W : Type}
    (base58 : string) (data : array N) (error : ErrorHandler W) (w : W)
    : bool * array N * W -> Prop :=
| outcome_badformat (v : bytes) :
    decode (c_str base58) [] = (false, v) ->
    decode_N_outcome base58 data error w
      (false, data, error badformat_error w)
| outcome_unexpected_size (v : bytes) :
    decode (c_str base58) [] = (true, v) ->
    List.length v <> N ->
    decode_N_outcome base58 data error w
      (false, data, error (unexpected_size_error (List.length v) N) w)
| outcome_decoded (v : bytes) (data' : array N) :
    decode (c_str base58) [] = (true, v) ->
    List.length v = N ->
    elems data' = v ->
    decode_N_outcome base58 data error w (true, data', w).

(** Whether every digit is zero. *)
Definition all_zero (ds : list N) : bool := forallb (N.eqb 0) ds.

(** The bytes of the ASCII text [123456789]. *)
Definition ascii_123456789 : bytes :=
  [x31; x32; x33; x34; x35; x36; x37; x38; x39].

(* ================================================================= *)
(** * Properties of arrays *)

(** Two arrays with the same elements are the same array. *)
Lemma array_eq (N : nat) (a b : array N) : elems a = elems b -> a = b.
Proof.
  destruct a as [xs Hx], b as [ys Hy]; simpl; intros ->.
  f_equal. apply UIP_dec, bool_dec.
Qed.

Lemma elems_length (N : nat) (a : array N) : List.length (elems a) = N.
Proof. apply Nat.eqb_eq, elems_size. Qed.

Lemma map_const_repeat (A B : Type) (b : B) (l : list A) :
  map (fun _ => b) l = repeat b (List.length l).
Proof. induction l as [|x l IH]; simpl; [reflexivity | now rewrite IH]. Qed.

Lemma elems_fill (N : nat) (a : array N) (b : byte) :
  elems (fill a b) = repeat b N.
Proof. simpl. now rewrite map_const_repeat, elems_length. Qed.

Lemma copy_n_list_all (src dst : bytes) :
  List.length dst = List.length src ->
  copy_n_list src (List.length src) dst = src.
Proof.
  intros Hlen. unfold copy_n_list.
  rewrite firstn_all, <- Hlen, skipn_all. apply app_nil_r.
Qed.

Lemma elems_copy_n (N : nat) (v : bytes) (data : array N)
    (Hv : List.length v = N) :
  elems (copy_n v data Hv) = v.
Proof.
  simpl. subst N. apply copy_n_list_all. apply elems_length.
Qed.

(* ================================================================= *)
(** * Properties of the templates, for every implementation of the
      declared functions *)

Section Generic.
Context {L : Base58Lib}.

(** Every call of [decode<N>] ends in one of the three outcomes. *)
Lemma decode_N_cases (N : nat) (W : Type) (s : string) (d : array N)
    (h : ErrorHandler W) (w : W) :
  decode_N_outcome s d h w (base58.decode_N s d h w).
Proof.
  unfold base58.decode_N.
  destruct (decode (c_str s) []) as [ok v] eqn:Hdec.
  destruct ok; simpl.
  - destruct (Nat.eq_dec (List.length v) N) as [Hsize | Hsize].
    + eapply outcome_decoded; eauto. apply elems_copy_n.
    + eapply outcome_unexpected_size; eauto.
  - eapply outcome_badformat; eauto.
Qed.

(** Case analysis on the outcome of a call whose underlying decoding [Hdec]
    is known; the outcomes that contradict [Hdec] are closed. *)
Ltac by_outcome N W s d h w Hdec :=
  let Hv := fresh "Hv" in
  let Hn := fresh "Hn" in
  let Hel := fresh "Hel" in
  destruct (decode_N_cases N W s d h w) as [? Hv | ? Hv Hn | ? ? Hv Hn Hel];
  rewrite Hdec in Hv; inversion Hv; subst; simpl; auto; try contradiction.

(** C3. For every string, container state and error handler: when
    [Data<N>::decode] returns false the container is the one before the
    call, and when it returns true the container holds exactly the decoded
    payload, which has [N] bytes, so that all [N] bytes are overwritten. *)
Theorem Data_decode_all_or_nothing (N : nat) (W : Type) (s : string)
    (d : Data.t N) (h : ErrorHandler W) (w : W) :
  let '(r, d', _) := Data.decode s d h w in
  (r = false -> d' = d) /\
  (r = true ->
   exists payload : bytes,
     decode (c_str s) [] = (true, payload) /\
     List.length payload = N /\
     elems d' = payload /\
     forall i : nat, (i < N)%nat -> nth_error (elems d') i = nth_error payload i).
Proof.
  unfold Data.decode.
  destruct (decode_N_cases N W s d h w) as [v Hdec | v Hdec Hsize | v d' Hdec Hsize Hel].
  - split; [reflexivity | discriminate].
  - split; [reflexivity | discriminate].
  - split; [discriminate | intros _].
    exists v. rewrite Hel. repeat split; assumption.
Qed.

(** When the underlying Base58Check decoding of the string succeeds with a
    payload whose length is not [N], [decode<N>] returns false, leaves the
    caller's buffer as it was, and calls the handler once with an error of
    kind [UNEXPECTED_SIZE], error code 1001.  The category of that error was
    built with a message that holds the observed length and the expected
    length [N], and it no longer exists when the handler runs. *)
Lemma decode_N_size_mismatch (N : nat) (W : Type) (s : string)
    (d : array N) (h : ErrorHandler W) (w : W) (payload : bytes) :
  decode (c_str s) [] = (true, payload) ->
  List.length payload <> N ->
  base58.decode_N s d h w
    = (false, d, h (unexpected_size_error (List.length payload) N) w)
  /\ ec_value (unexpected_size_error (List.length payload) N)
     = error_int UNEXPECTED_SIZE
  /\ ec_category (unexpected_size_error (List.length payload) N) = None
  /\ exists before between : string,
       mess_ (pointee (cat_ (unexpected_size_error (List.length payload) N)))
       = (before ++ show_size (List.length payload)
            ++ between ++ show_size N)%string.
Proof.
  intros Hdec Hsize. split; [| split; [| split]].
  - by_outcome N W s d h w Hdec.
  - reflexivity.
  - reflexivity.
  - exists "size of decoded vector is not equal to expected size: "%string.
    exists " <> "%string. reflexivity.
Qed.

(** C6. The flag returned by [decode<N>] and the errors it hands to the
    handler depend on the string alone; the handler is called exactly once
    when the flag is false and never when it is true, so the flag is false
    exactly when the handler is called. *)
Theorem decode_N_reports_once (N : nat) (s : string) (d : array N) :
  exists (r : bool) (calls : list error_code),
    (forall (W : Type) (h : ErrorHandler W) (w : W),
        fst (fst (base58.decode_N s d h w)) = r /\
        snd (base58.decode_N s d h w) = run_calls h calls w) /\
    (r = false <-> calls <> []) /\
    (r = false -> List.length calls = 1%nat) /\
    (r = true -> calls = []).
Proof.
  destruct (decode (c_str s) []) as [ok v] eqn:Hdec.
  destruct ok.
  - destruct (Nat.eq_dec (List.length v) N) as [Hsize | Hsize].
    + exists true, []. split; [| repeat split; congruence].
      intros W h w. by_outcome N W s d h w Hdec.
    + exists false, [unexpected_size_error (List.length v) N].
      split; [| repeat split; congruence].
      intros W h w. by_outcome N W s d h w Hdec.
  - exists false, [badformat_error]. split; [| repeat split; congruence].
    intros W h w. by_outcome N W s d h w Hdec.
Qed.

(** [decode<N>] hands the handler errors of kind [BADFORMAT] and
    [UNEXPECTED_SIZE] only. *)
Lemma decode_N_error_kinds (N : nat) (s : string) (d : array N) :
  Forall (fun ec => ec_value ec = 1000 \/ ec_value ec = 1001)
    (snd (base58.decode_N s d log_handler [])).
Proof.
  destruct (decode_N_cases N _ s d log_handler [])
    as [v Hv | v Hv Hn | v d' Hv Hn Hel]; simpl.
  - constructor; [left; reflexivity | constructor].
  - constructor; [right; reflexivity | constructor].
  - constructor.
Qed.

(** The masks and shifts of [encode<N>] produce the base-256 digits. *)
Lemma uchar_shift_mask (x : Z) (k : Z) :
  0 <= k ->
  uchar (Z.land (Z.shiftr x (8 * k)) 255) = uchar (x / 256 ^ k).
Proof.
  intros Hk. unfold uchar.
  change 255 with (Z.ones 8).
  rewrite Z.land_ones by lia.
  rewrite Z.shiftr_div_pow2 by lia.
  change (2 ^ 8) with 256.
  rewrite Z.mod_mod by lia.
  replace (2 ^ (8 * k)) with (256 ^ k); [reflexivity |].
  change 256 with (2 ^ 8). rewrite <- Z.pow_mul_r by lia. reflexivity.
Qed.

(** [encode<N>] appends the base-256 digits of the checksum, least
    significant first, and encodes the result. *)
Lemma encode_N_unfold (N : nat) (b : array N) :
  base58.encode_N b = encode (elems b ++ little_endian_u32 (crc32 (elems b))).
Proof.
  unfold base58.encode_N, little_endian_u32. simpl map.
  repeat rewrite <- app_assoc. simpl app.
  rewrite <- (uchar_shift_mask (crc32 (elems b)) 0) by lia.
  rewrite <- (uchar_shift_mask (crc32 (elems b)) 1) by lia.
  rewrite <- (uchar_shift_mask (crc32 (elems b)) 2) by lia.
  rewrite <- (uchar_shift_mask (crc32 (elems b)) 3) by lia.
  simpl Z.mul. rewrite Z.shiftr_0_r. reflexivity.
Qed.

(** C4. The fixed-size encoding of an [N]-byte buffer is the plain Base58
    encoding of the [N+4]-byte buffer made of the buffer followed by the four
    bytes of its CRC32, least significant byte first. *)
Theorem encode_N_wire_format (N : nat) (b : array N) :
  base58.encode_N b
  = encode (elems b ++ little_endian_u32 (crc32 (elems b)))
  /\ List.length (elems b ++ little_endian_u32 (crc32 (elems b))) = (N + 4)%nat.
Proof.
  split.
  - apply encode_N_unfold.
  - rewrite length_app, elems_length. reflexivity.
Qed.

(** C10. A [Seed] and a [Public] holding the same 32 bytes have the same
    encoding, and a string that decodes into a [Seed] decodes into a
    [Public] too, with the same 32 bytes. *)
Theorem Seed_Public_same_wire_format :
  (forall b : array 32,
      keys.Seed_encode (keys.mk_Seed b) = keys.Public_encode (keys.mk_Public b))
  /\
  (forall (W : Type) (s : string) (sd : keys.Seed) (pk : keys.Public)
          (h : ErrorHandler W) (w : W),
      fst (fst (keys.Seed_decode s sd h w)) = true ->
      fst (fst (keys.Public_decode s pk h w)) = true /\
      elems (keys.public_data (snd (fst (keys.Public_decode s pk h w))))
      = elems (keys.seed_data (snd (fst (keys.Seed_decode s sd h w))))).
Proof.
  split; [reflexivity |].
  intros W s sd pk h w.
  unfold keys.Seed_decode, keys.Public_decode, Data.decode.
  destruct (decode_N_cases size.seed W s (keys.seed_data sd) h w)
    as [v Hv | v Hv Hn | v d' Hv Hn Hel]; simpl; try discriminate.
  intros _.
  destruct (decode_N_cases size.public_key W s (keys.public_data pk) h w)
    as [v2 Hv2 | v2 Hv2 Hn2 | v2 d2 Hv2 Hn2 Hel2]; simpl;
    rewrite Hv in Hv2; inversion Hv2; subst.
  - exfalso. apply Hn2. exact Hn.
  - split; [reflexivity | congruence].
Qed.

End Generic.

(* ================================================================= *)
(** * Wiping *)

(** C7. A default-constructed [Data<N>] holds [N] zero bytes; [clean()],
    a total function on containers, leaves [N] zero bytes whatever the
    container held, and cleaning twice is cleaning once. *)
Theorem Data_clean_zero (N : nat) :
  elems (Data.ctor N) = repeat x00 N /\
  (forall d : Data.t N,
      elems (Data.clean d) = repeat x00 N /\
      Data.clean (Data.clean d) = Data.clean d).
Proof.
  split; [apply elems_fill |].
  intros d. split; [apply elems_fill |].
  apply array_eq. unfold Data.clean. now rewrite !elems_fill.
Qed.

(** C8. After [Pair::clean()] the public key is the all-zero 32-byte buffer
    and the private key is the all-zero 64-byte buffer, and the destructor
    leaves the members in exactly the state [clean()] does. *)
Theorem Pair_clean_zero (p : keys.Pair) :
  elems (keys.public_data (keys.get_public_key (keys.Pair_clean p)))
  = repeat x00 32 /\
  elems (keys.private_data (keys.get_private_key (keys.Pair_clean p)))
  = repeat x00 64 /\
  keys.Pair_dtor p = keys.Pair_clean p.
Proof.
  split; [| split].
  - apply (elems_fill size.public_key).
  - apply (elems_fill size.private_key).
  - reflexivity.
Qed.

(* ================================================================= *)
(** * Positional notation *)

Section Radix.
Local Open Scope N_scope.
Variable base : N.
Hypothesis base_ge_2 : 2 <= base.

Import Base58Impl.

Lemma to_digits_aux_acc (fuel : nat) :
  forall (n : N) (acc : list N),
    to_digits_aux fuel base n acc = to_digits_aux fuel base n [] ++ acc.
Proof.
  induction fuel as [|fuel IH]; intros n acc; simpl; [reflexivity |].
  destruct (N.eqb n 0); [reflexivity |].
  rewrite (IH _ (_ :: acc)), (IH _ [_]), <- app_assoc. reflexivity.
Qed.

Lemma div_base_lt_pow2 (n : N) (k : nat) :
  n < 2 ^ N.of_nat (S k) -> n / base < 2 ^ N.of_nat k.
Proof.
  intros Hn.
  apply N.le_lt_trans with (n / 2).
  - apply N.div_le_compat_l. lia.
  - apply N.Div0.div_lt_upper_bound.
    rewrite Nat2N.inj_succ, N.pow_succ_r' in Hn. exact Hn.
Qed.

(** Any fuel that bounds the number of bits gives the same digits. *)
Lemma to_digits_aux_fuel (fuel : nat) :
  forall (n : N) (fuel' : nat),
    n < 2 ^ N.of_nat fuel -> n < 2 ^ N.of_nat fuel' ->
    to_digits_aux fuel base n [] = to_digits_aux fuel' base n [].
Proof.
  induction fuel as [|fuel IH]; intros n fuel' Hf Hf'.
  - simpl in Hf. assert (n = 0) by lia. subst n.
    destruct fuel'; reflexivity.
  - simpl. destruct (N.eqb_spec n 0) as [-> | Hn].
    + destruct fuel'; reflexivity.
    + destruct fuel' as [|fuel'].
      * simpl in Hf'. lia.
      * simpl. destruct (N.eqb_spec n 0) as [| _]; [contradiction |].
        rewrite to_digits_aux_acc, (to_digits_aux_acc fuel').
        f_equal. apply IH; apply div_base_lt_pow2; assumption.
Qed.

Lemma to_digits_0 : to_digits base 0 = [].
Proof. reflexivity. Qed.

(** The last digit is the remainder, the digits before it are those of
    the quotient. *)
Lemma to_digits_step (n : N) :
  n <> 0 -> to_digits base n = to_digits base (n / base) ++ [n mod base].
Proof.
  intros Hn. unfold to_digits.
  pose proof (N.size_gt n) as Hsz.
  rewrite <- (N2Nat.id (N.size n)) in Hsz.
  destruct (N.to_nat (N.size n)) as [|k] eqn:Hk.
  - simpl in Hsz. lia.
  - simpl. destruct (N.eqb_spec n 0) as [| _]; [contradiction |].
    rewrite to_digits_aux_acc. f_equal.
    apply to_digits_aux_fuel.
    + apply div_base_lt_pow2. exact Hsz.
    + rewrite N2Nat.id. apply N.size_gt.
Qed.

Lemma to_digits_snoc (n d : N) :
  d < base -> n <> 0 \/ d <> 0 ->
  to_digits base (n * base + d) = to_digits base n ++ [d].
Proof.
  intros Hd Hnz.
  rewrite to_digits_step by nia.
  replace ((n * base + d) / base) with n.
  - replace ((n * base + d) mod base) with d; [reflexivity |].
    symmetry. rewrite N.add_comm, N.Div0.mod_add. apply N.mod_small, Hd.
  - symmetry. rewrite N.add_comm, N.div_add by lia.
    rewrite N.div_small by exact Hd. reflexivity.
Qed.

Lemma of_digits_snoc (ds : list N) (d : N) :
  of_digits base (ds ++ [d]) = of_digits base ds * base + d.
Proof. unfold of_digits. rewrite fold_left_app. reflexivity. Qed.

(** Leading zeros do not change the value. *)
Lemma of_digits_zeros (z : nat) (ds : list N) :
  of_digits base (repeat 0 z ++ ds) = of_digits base ds.
Proof.
  unfold of_digits. rewrite fold_left_app. f_equal.
  induction z as [|z IH]; simpl; [reflexivity | exact IH].
Qed.

Lemma of_to_digits (n : N) : of_digits base (to_digits base n) = n.
Proof.
  induction n as [n IH] using (well_founded_induction N.lt_wf_0).
  destruct (N.eq_dec n 0) as [-> | Hn]; [reflexivity |].
  rewrite to_digits_step, of_digits_snoc by exact Hn.
  rewrite IH by (apply N.div_lt; lia).
  rewrite N.mul_comm. symmetry. apply N.div_mod. lia.
Qed.

Lemma to_digits_bounded (n : N) : Forall (fun d => d < base) (to_digits base n).
Proof.
  induction n as [n IH] using (well_founded_induction N.lt_wf_0).
  destruct (N.eq_dec n 0) as [-> | Hn]; [constructor |].
  rewrite to_digits_step by exact Hn.
  apply Forall_app. split.
  - apply IH, N.div_lt; lia.
  - repeat constructor. apply N.mod_lt. lia.
Qed.

Lemma leading_zeros_nonzero_head (d : N) (ds : list N) :
  d <> 0 -> leading_zeros ((d :: ds)) = O.
Proof. intros Hd. simpl. destruct (N.eqb_spec d 0); [contradiction | reflexivity]. Qed.

(** The digits of a number start with a digit that is not zero. *)
Lemma to_digits_head (n : N) :
  to_digits base n = [] \/
  exists d ds, to_digits base n = d :: ds /\ d <> 0.
Proof.
  induction n as [n IH] using (well_founded_induction N.lt_wf_0).
  destruct (N.eq_dec n 0) as [-> | Hn]; [left; reflexivity | right].
  rewrite to_digits_step by exact Hn.
  destruct (N.eq_dec (n / base) 0) as [Hq | Hq].
  - rewrite Hq, to_digits_0. simpl. exists (n mod base), []. split; [reflexivity |].
    apply N.div_small_iff in Hq; [| lia]. rewrite N.mod_small by exact Hq. exact Hn.
  - destruct (IH (n / base)) as [Hnil | (d & ds & Heq & Hd)].
    + apply N.div_lt; lia.
    + exfalso. rewrite to_digits_step in Hnil by exact Hq.
      destruct (to_digits base (n / base / base)); discriminate.
    + rewrite Heq. exists d, (ds ++ [n mod base]). split; [reflexivity | exact Hd].
Qed.

Lemma leading_zeros_to_digits (z : nat) (n : N) :
  leading_zeros (repeat 0 z ++ to_digits base n) = z.
Proof.
  induction z as [|z IH]; simpl; [| now rewrite IH].
  destruct (to_digits_head n) as [-> | (d & ds & -> & Hd)]; [reflexivity |].
  apply leading_zeros_nonzero_head, Hd.
Qed.

Lemma all_zero_repeat (ds : list N) :
  all_zero ds = true ->
  ds = repeat 0 (List.length ds) /\ leading_zeros ds = List.length ds /\
  of_digits base ds = 0.
Proof.
  intros Hz.
  assert (Hrep : ds = repeat 0 (List.length ds)).
  { induction ds as [|d ds IH]; simpl in *; [reflexivity |].
    apply andb_prop in Hz. destruct Hz as [Hd Hz].
    destruct d; [| discriminate]. f_equal. apply IH, Hz. }
  split; [exact Hrep | split].
  - rewrite Hrep at 1. rewrite <- (app_nil_r (repeat _ _)).
    change (@nil N) with (to_digits base 0). apply leading_zeros_to_digits.
  - rewrite Hrep, <- (app_nil_r (repeat _ _)), of_digits_zeros. reflexivity.
Qed.

Lemma leading_zeros_snoc (ds : list N) (d : N) :
  all_zero (ds ++ [d]) = false ->
  leading_zeros (ds ++ [d]) = leading_zeros ds.
Proof.
  induction ds as [|x ds IH]; simpl.
  - destruct (N.eqb_spec 0 d) as [<- | Hd]; [discriminate |].
    destruct (N.eqb_spec d 0); [congruence | reflexivity].
  - destruct (N.eqb_spec 0 x) as [<- | Hx]; simpl.
    + intros Hz. f_equal. apply IH, Hz.
    + intros _. destruct (N.eqb_spec x 0); [congruence | reflexivity].
Qed.

Lemma of_digits_nonzero (ds : list N) :
  all_zero ds = false -> of_digits base ds <> 0.
Proof.
  induction ds as [|d ds IH] using rev_ind; [discriminate |].
  unfold all_zero. rewrite forallb_app, of_digits_snoc. simpl.
  destruct (N.eqb_spec 0 d) as [<- | Hd].
  - rewrite andb_true_r. intros Hz. specialize (IH Hz). nia.
  - intros _. lia.
Qed.

(** Writing the value of [ds] gives [ds] back without its leading zeros. *)
Lemma to_of_digits (ds : list N) :
  Forall (fun d => d < base) ds ->
  repeat 0 (leading_zeros ds) ++ to_digits base (of_digits base ds) = ds.
Proof.
  induction ds as [|d ds IH] using rev_ind; intros Hb; [reflexivity |].
  apply Forall_app in Hb. destruct Hb as [Hds Hd].
  inversion_clear Hd as [|? ? Hd' _].
  destruct (all_zero (ds ++ [d])) eqn:Hz.
  - destruct (all_zero_repeat _ Hz) as (Hrep & Hlz & Hval).
    rewrite Hlz, Hval, to_digits_0, app_nil_r. symmetry. exact Hrep.
  - rewrite leading_zeros_snoc by exact Hz.
    rewrite of_digits_snoc, to_digits_snoc.
    + rewrite app_assoc, IH by exact Hds. reflexivity.
    + exact Hd'.
    + unfold all_zero in Hz. rewrite forallb_app in Hz.
      cbn [forallb] in Hz. rewrite andb_true_r in Hz.
      destruct (forallb (N.eqb 0) ds) eqn:Hzd.
      * right. destruct (N.eqb_spec 0 d); [discriminate | congruence].
      * left. apply of_digits_nonzero, Hzd.
Qed.

End Radix.

(* ================================================================= *)
(** * The Base58 alphabet codec *)

Section Alphabet.
Import Base58Impl.

Lemma digit_symbol (d : N) : (d < 58)%N -> digit (symbol d) = Some d.
Proof.
  intros Hd. rewrite <- (N2Nat.id d).
  assert (Hk : (N.to_nat d < 58)%nat) by lia.
  generalize dependent (N.to_nat d). clear d Hd. intros k Hk.
  do 58 (destruct k as [|k]; [vm_compute; reflexivity |]). lia.
Qed.

Lemma digits_app (xs ys : list ascii) (ds es : list N) :
  digits xs = Some ds -> digits ys = Some es ->
  digits (xs ++ ys) = Some (ds ++ es).
Proof.
  revert ds. induction xs as [|c xs IH]; intros ds Hx Hy; simpl in *.
  - inversion Hx. exact Hy.
  - destruct (digit c) as [d|]; [| discriminate].
    destruct (digits xs) as [ds'|]; [| discriminate].
    inversion Hx. rewrite (IH ds' eq_refl Hy). reflexivity.
Qed.

Lemma digits_symbols (ds : list N) :
  Forall (fun d => (d < 58)%N) ds -> digits (map symbol ds) = Some ds.
Proof.
  induction 1 as [|d ds Hd _ IH]; simpl; [reflexivity |].
  rewrite digit_symbol by exact Hd. rewrite IH. reflexivity.
Qed.

Lemma digits_ones (z : nat) : digits (repeat "1"%char z) = Some (repeat 0%N z).
Proof.
  induction z as [|z IH]; [reflexivity |].
  cbn [repeat digits]. rewrite IH. reflexivity.
Qed.

Lemma byte_of_digit_to_N (b : byte) : byte_of_digit (Byte.to_N b) = b.
Proof.
  unfold byte_of_digit, uchar.
  pose proof (Byte.to_N_bounded b) as Hb.
  rewrite Z.mod_small by lia.
  rewrite N2Z.id, Byte.of_to_N. reflexivity.
Qed.

Lemma to_N_lt_256 (data : bytes) :
  Forall (fun d => (d < 256)%N) (map Byte.to_N data).
Proof.
  apply Forall_forall. intros d Hin. apply in_map_iff in Hin.
  destruct Hin as (b & <- & _). pose proof (Byte.to_N_bounded b). lia.
Qed.

Lemma map_byte_of_digit_zeros (z : nat) :
  map byte_of_digit (repeat 0%N z) = repeat x00 z.
Proof. induction z as [|z IH]; simpl; [reflexivity | now rewrite IH]. Qed.

(** Decoding an encoded byte sequence gives the sequence back, leading zero
    bytes included. *)
Lemma decode_alphabet_encode (data : bytes) :
  decode_alphabet (encode data) = Some data.
Proof.
  unfold decode_alphabet, encode.
  rewrite list_ascii_of_string_of_list_ascii.
  set (ds := map Byte.to_N data).
  rewrite (digits_app _ _ _ _ (digits_ones _)
             (digits_symbols _ (to_digits_bounded 58 ltac:(lia) _))).
  rewrite leading_zeros_to_digits by lia.
  rewrite of_digits_zeros, of_to_digits by lia.
  f_equal.
  rewrite <- map_byte_of_digit_zeros, <- map_app.
  rewrite to_of_digits by (try lia; apply to_N_lt_256).
  unfold ds. rewrite map_map.
  erewrite map_ext; [apply map_id |]. apply byte_of_digit_to_N.
Qed.

(** A string in the alphabet contains no NUL, so that passing it through
    [c_str()] gives the string itself. *)
Lemma c_str_digits (s : string) (ds : list N) :
  digits (list_ascii_of_string s) = Some ds -> c_str s = s.
Proof.
  revert ds. induction s as [|c s IH]; intros ds Hd; simpl in *; [reflexivity |].
  destruct (digit c) as [d|] eqn:Hc; [| discriminate].
  destruct (digits (list_ascii_of_string s)) as [ds'|]; [| discriminate].
  destruct (Ascii.eqb_spec c zero) as [-> | _].
  - vm_compute in Hc. discriminate.
  - f_equal. apply (IH ds' eq_refl).
Qed.

Lemma c_str_decode_alphabet (s : string) (raw : bytes) :
  decode_alphabet s = Some raw -> c_str s = s.
Proof.
  unfold decode_alphabet.
  destruct (digits (list_ascii_of_string s)) as [ds|] eqn:Hd; [| discriminate].
  intros _. apply (c_str_digits s ds Hd).
Qed.

End Alphabet.

(* ================================================================= *)
(** * The checksum *)

Section Checksum.
Import Base58Impl.

Lemma crc32_range (buf : bytes) : 0 <= Base58Impl.crc32 buf < 2 ^ 32.
Proof.
  unfold Base58Impl.crc32. change 0xFFFFFFFF with (Z.ones 32).
  rewrite Z.land_ones by lia. apply Z.mod_pos_bound. lia.
Qed.

Lemma byte_val_uchar (x : Z) : byte_val (uchar x) = x mod 256.
Proof.
  unfold byte_val, uchar.
  pose proof (Z.mod_pos_bound x 256 ltac:(lia)) as Hx.
  pose proof (Byte.to_of_N_option_map (Z.to_N (x mod 256))) as Hb.
  destruct (N.leb_spec (Z.to_N (x mod 256)) 255) as [_ | Hgt]; [| lia].
  destruct (Byte.of_N (Z.to_N (x mod 256))) as [b|]; [| discriminate].
  simpl in Hb. inversion Hb as [Hb']. rewrite Hb'. lia.
Qed.

(** The four little-endian bytes of a 32-bit integer read back as that
    integer. *)
Lemma le_value_little_endian_u32 (x : Z) :
  0 <= x < 2 ^ 32 -> le_value (little_endian_u32 x) = x.
Proof.
  intros Hx. unfold little_endian_u32, le_value. cbn [map fold_right].
  rewrite !byte_val_uchar.
  change (256 ^ 0) with 1. change (256 ^ 1) with 256.
  change (256 ^ 2) with (256 * 256). change (256 ^ 3) with (256 * (256 * 256)).
  rewrite Z.div_1_r.
  rewrite <- !Z.div_div by lia.
  set (q1 := x / 256). set (q2 := q1 / 256). set (q3 := q2 / 256).
  pose proof (Z.div_mod x 256 ltac:(lia)) as H0.
  pose proof (Z.div_mod q1 256 ltac:(lia)) as H1.
  pose proof (Z.div_mod q2 256 ltac:(lia)) as H2.
  fold q1 in H0. fold q2 in H1. fold q3 in H2.
  assert (Hq3 : 0 <= q3 < 256).
  { unfold q3, q2, q1. rewrite !Z.div_div by lia.
    split; [apply Z.div_pos; lia | apply Z.div_lt_upper_bound; lia]. }
  rewrite (Z.mod_small q3) by exact Hq3. lia.
Qed.

(** The Base58Check decoding of the Base58 encoding of a payload followed
    by its checksum succeeds with the payload. *)
Lemma decode_check_encode (payload : bytes) :
  decode_check (Base58Impl.encode (payload ++ little_endian_u32 (Base58Impl.crc32 payload)))
  = inr payload.
Proof.
  unfold decode_check. rewrite decode_alphabet_encode.
  rewrite length_app. change (List.length (little_endian_u32 _)) with 4%nat.
  destruct (Nat.ltb_spec (List.length payload + 4) 4) as [Hlt | _]; [lia |].
  replace (List.length payload + 4 - 4)%nat with (List.length payload + 0)%nat by lia.
  rewrite firstn_app_2, skipn_app.
  rewrite skipn_all2 by lia.
  replace (List.length payload + 0 - List.length payload)%nat with 0%nat by lia.
  cbn [firstn skipn app]. rewrite app_nil_r.
  rewrite le_value_little_endian_u32 by apply crc32_range.
  rewrite Z.eqb_refl. reflexivity.
Qed.

End Checksum.

(* ================================================================= *)
(** * The codec with the functions defined outside the header *)

Section Codec.

(** The declared [decode] accepts what the fixed-size [encode] produces. *)
Lemma decode_encode_N (N : nat) (b : array N) :
  decode (c_str (base58.encode_N b)) [] = (true, elems b).
Proof.
  rewrite encode_N_unfold. cbn [encode decode crc32 impl].
  rewrite (c_str_decode_alphabet _ _ (decode_alphabet_encode _)).
  unfold Base58Impl.decode. rewrite decode_check_encode. reflexivity.
Qed.

(** Encoding then decoding, for a buffer of any size. *)
Lemma decode_N_encode_N (N : nat) (W : Type) (b d : array N)
    (h : ErrorHandler W) (w : W) :
  base58.decode_N (base58.encode_N b) d h w = (true, b, w).
Proof.
  pose proof (decode_encode_N N b) as Hdec.
  destruct (decode_N_cases N W (base58.encode_N b) d h w)
    as [v Hv | v Hv Hn | v d' Hv Hn Hel];
    rewrite Hdec in Hv; inversion Hv as [Hvb].
  - exfalso. apply Hn. rewrite <- Hvb. apply elems_length.
  - f_equal. f_equal. apply array_eq. congruence.
Qed.

(** C1. For buffers of 32 and of 64 bytes: decoding the fixed-size encoding
    of a buffer [b] into a container, a fresh one in particular, returns true
    and leaves exactly the bytes of [b] in it; the handler is not called. *)
Theorem decode_encode_roundtrip :
  (forall (W : Type) (b d : array 32) (h : ErrorHandler W) (w : W),
      base58.decode_N (base58.encode_N b) d h w = (true, b, w)) /\
  (forall (W : Type) (b d : array 64) (h : ErrorHandler W) (w : W),
      base58.decode_N (base58.encode_N b) d h w = (true, b, w)) /\
  (forall b : Data.t 32,
      fst (Data.decode (Data.encode b) (Data.ctor 32) log_handler [])
      = (true, b)) /\
  (forall b : Data.t 64,
      fst (Data.decode (Data.encode b) (Data.ctor 64) log_handler [])
      = (true, b)).
Proof.
  repeat split; intros; unfold Data.decode, Data.encode;
    rewrite decode_N_encode_N; reflexivity.
Qed.

(** C2, as the code has it.  When the Base58 decoding of the string gives
    fewer than 4 bytes, [decode<N>] returns false, leaves the buffer as it
    was and calls the handler once, with an error of kind [BADFORMAT], error
    code 1000, which is not the code of [EMPTY]. *)
Theorem decode_N_too_short (N : nat) (W : Type) (s : string) (raw : bytes)
    (d : array N) (h : ErrorHandler W) (w : W) :
  Base58Impl.decode_alphabet s = Some raw ->
  (List.length raw < 4)%nat ->
  base58.decode_N s d h w = (false, d, h badformat_error w) /\
  ec_value badformat_error = error_int BADFORMAT /\
  ec_value badformat_error <> error_int EMPTY.
Proof.
  intros Hraw Hshort. split; [| split; [reflexivity | discriminate]].
  assert (Hdec : decode (c_str s) [] = (false, [])).
  { rewrite (c_str_decode_alphabet s raw Hraw).
    cbn [decode impl]. unfold Base58Impl.decode, Base58Impl.decode_check.
    rewrite Hraw.
    destruct (Nat.ltb_spec (List.length raw) 4) as [_ | Hge]; [reflexivity | lia]. }
  destruct (decode_N_cases N W s d h w) as [v Hv | v Hv Hn | v d' Hv Hn Hel];
    rewrite Hdec in Hv; inversion Hv; reflexivity.
Qed.

(** C2 fails as stated: the string [2] Base58-decodes to the single byte 1,
    and [decode<32>] hands the handler one error, of code 1000 and not the
    1002 of [EMPTY]. *)
Lemma decode_N_too_short_not_EMPTY :
  Base58Impl.decode_alphabet "2" = Some [x01] /\
  (List.length [x01] < 4)%nat /\
  base58.decode_N "2" (value_init 32) log_handler []
  = (false, value_init 32,
     [{| val_ := 1000; cat_ := temporary {| mess_ := EmptyString |} |}]) /\
  ec_value {| val_ := 1000; cat_ := temporary {| mess_ := EmptyString |} |} = 1000 /\
  error_int EMPTY <> 1000.
Proof.
  split; [vm_compute; reflexivity |].
  split; [simpl; lia |].
  split; [vm_compute; reflexivity |].
  split; [reflexivity | discriminate].
Qed.

(** C5, on the code.  The string [ByTzkDV] is the Base58Check encoding of
    the one-byte payload [a].  Decoding it into a 32-byte buffer returns
    false, leaves the buffer as it was and calls the handler once with an
    error of value 1001.  The category of that error was built with the
    message holding the lengths 1 and 32, and it is a temporary that no
    longer exists when the handler is called: the handler has no category to
    read the message from. *)
Theorem decode_N_unexpected_size_message :
  decode (c_str "ByTzkDV") [] = (true, [x61]) /\
  exists ec : error_code,
    base58.decode_N "ByTzkDV" (value_init 32) log_handler []
    = (false, value_init 32, [ec]) /\
    ec_value ec = 1001 /\
    mess_ (pointee (cat_ ec))
    = "size of decoded vector is not equal to expected size: 1 <> 32"%string /\
    alive (cat_ ec) = false /\
    ec_category ec = None.
Proof.
  assert (H1 : decode (c_str "ByTzkDV") [] = (true, [x61]))
    by (vm_compute; reflexivity).
  split; [exact H1 |].
  exists (unexpected_size_error 1 32).
  split; [| repeat split].
  apply (decode_N_size_mismatch 32 _ "ByTzkDV" (value_init 32)
           log_handler [] [x61] H1).
  simpl. lia.
Qed.

(** C9. The CRC32 of the empty byte sequence is [0x00000000], and the CRC32
    of the nine ASCII bytes of [123456789] is [0xCBF43926]. *)
Theorem crc32_reference_vectors :
  Base58Impl.crc32 [] = 0x00000000 /\
  Base58Impl.crc32 ascii_123456789 = 0xCBF43926.
Proof. split; vm_compute; reflexivity. Qed.

End Codec.

(* ================================================================= *)
(** * The properties at concrete inputs *)

(** [decode_N_too_short] at the string [2], into a zero 32-byte buffer. *)
Lemma decode_N_too_short_at_2 :
  Base58Impl.decode_alphabet "2" = Some [x01] /\
  (List.length [x01] < 4)%nat /\
  base58.decode_N "2" (value_init 32) log_handler []
  = (false, value_init 32, log_handler badformat_error []).
Proof.
  assert (H1 : Base58Impl.decode_alphabet "2" = Some [x01])
    by (vm_compute; reflexivity).
  assert (H2 : (List.length [x01] < 4)%nat) by (simpl; lia).
  split; [exact H1 | split; [exact H2 |]].
  apply (decode_N_too_short 32 _ "2" [x01] (value_init 32) log_handler [] H1 H2).
Defined.

(** [Seed_Public_same_wire_format] at the encoding of 32 zero bytes. *)
Lemma Seed_Public_same_wire_format_at_zero :
  fst (fst (keys.Seed_decode "111111111111111111111111111111115RyRTN"
              (keys.mk_Seed (value_init 32)) log_handler [])) = true /\
  fst (fst (keys.Public_decode "111111111111111111111111111111115RyRTN"
              (keys.mk_Public (value_init 32)) log_handler [])) = true.
Proof.
  assert (H1 : fst (fst (keys.Seed_decode "111111111111111111111111111111115RyRTN"
              (keys.mk_Seed (value_init 32)) log_handler [])) = true)
    by (vm_compute; reflexivity).
  split; [exact H1 |].
  apply (proj2 Seed_Public_same_wire_format _
           "111111111111111111111111111111115RyRTN"%string
           (keys.mk_Seed (value_init 32)) (keys.mk_Public (value_init 32))
           log_handler [] H1).
Defined.

(** [Data_decode_all_or_nothing] at the encoding of 32 zero bytes, decoded
    into a container that holds 32 bytes [ff]: the call returns true. *)
Lemma Data_decode_all_or_nothing_at_zero :
  fst (fst (Data.decode "111111111111111111111111111111115RyRTN"
              (fill (value_init 32) xff) log_handler [])) = true /\
  let '(r, d', _) :=
    Data.decode "111111111111111111111111111111115RyRTN"
      (fill (value_init 32) xff) log_handler [] in
  (r = false -> d' = fill (value_init 32) xff) /\
  (r = true ->
   exists payload : bytes,
     decode (c_str "111111111111111111111111111111115RyRTN") [] = (true, payload) /\
     List.length payload = 32%nat /\
     elems d' = payload /\
     forall i : nat, (i < 32)%nat -> nth_error (elems d') i = nth_error payload i).
Proof.
  split; [vm_compute; reflexivity |].
  apply (Data_decode_all_or_nothing 32 _
           "111111111111111111111111111111115RyRTN"
           (fill (value_init 32) xff) log_handler []).
Defined.

(* ================================================================= *)
(** * Further properties of the templates, for every implementation of
      the declared functions *)

Section Templates.
Context {L : Base58Lib}.

(** A string without NUL followed by a NUL and anything is cut back to
    that string by [c_str()]. *)
Lemma c_str_app_nul (s t : string) :
  c_str s = s -> c_str (s ++ String zero t) = s.
Proof.
  induction s as [|c s IH]; simpl; [reflexivity |].
  destruct (Ascii.eqb c zero); [discriminate |].
  intros Hs. inversion Hs as [Hs']. rewrite Hs'. f_equal. apply IH, Hs'.
Qed.

(** X1. [decode<N>] passes [base58.c_str()] on: what follows the first NUL
    of the string is ignored, so a NUL-free string followed by a NUL and any
    characters has the outcome of the string alone. *)
Theorem decode_N_stops_at_NUL (N : nat) (W : Type) (s t : string)
    (d : array N) (h : ErrorHandler W) (w : W) :
  c_str s = s ->
  base58.decode_N (s ++ String zero t) d h w = base58.decode_N s d h w.
Proof.
  intros Hs. unfold base58.decode_N.
  rewrite (c_str_app_nul s t Hs), Hs. reflexivity.
Qed.

(** X2. [decode<N>] returns true exactly when the underlying decoding
    succeeds with a payload of exactly [N] bytes, and a call that returns
    true leaves the state of the handler as it was. *)
Theorem decode_N_succeeds_iff (N : nat) (W : Type) (s : string)
    (d : array N) (h : ErrorHandler W) (w : W) :
  (fst (fst (base58.decode_N s d h w)) = true <->
   exists v : bytes, decode (c_str s) [] = (true, v) /\ List.length v = N) /\
  (fst (fst (base58.decode_N s d h w)) = true ->
   snd (base58.decode_N s d h w) = w).
Proof.
  destruct (decode_N_cases N W s d h w) as [v Hv | v Hv Hn | v d' Hv Hn Hel];
    simpl; (split; [split |]); try discriminate; try reflexivity.
  - intros (v' & Hv' & _). rewrite Hv in Hv'. discriminate.
  - intros (v' & Hv' & Hlen). rewrite Hv in Hv'. inversion Hv'; subst.
    contradiction.
  - intros _. exists v. split; assumption.
Qed.

(** A string accepted for one size is refused for every other size, with
    the error that reports both sizes. *)
Lemma decode_N_size_exclusive (N M : nat) (W W' : Type) (s : string)
    (d : array N) (d' : array M) (h : ErrorHandler W) (h' : ErrorHandler W')
    (w : W) (w' : W') :
  N <> M ->
  fst (fst (base58.decode_N s d h w)) = true ->
  base58.decode_N s d' h' w' = (false, d', h' (unexpected_size_error N M) w').
Proof.
  intros Hne Hok.
  destruct (decode_N_cases N W s d h w) as [v Hv | v Hv Hn | v d1 Hv Hn Hel];
    simpl in Hok; try discriminate.
  destruct (decode_N_size_mismatch M W' s d' h' w' v Hv) as [Hres _].
  - rewrite Hn. exact Hne.
  - rewrite Hres, Hn. reflexivity.
Qed.

(** X3. A string that [Public::decode] accepts is refused by
    [Private::decode], which leaves the private key as it was and reports
    [UNEXPECTED_SIZE] with the sizes 32 and 64; and a string that
    [Private::decode] accepts is refused by [Public::decode] in the same
    way, with the sizes 64 and 32. *)
Theorem Public_Private_strings_disjoint (W : Type) (s : string)
    (pk : keys.Public) (sk : keys.Private) (h : ErrorHandler W) (w : W) :
  (fst (fst (keys.Public_decode s pk h w)) = true ->
   keys.Private_decode s sk h w
   = (false, sk, h (unexpected_size_error 32 64) w)) /\
  (fst (fst (keys.Private_decode s sk h w)) = true ->
   keys.Public_decode s pk h w
   = (false, pk, h (unexpected_size_error 64 32) w)).
Proof.
  unfold keys.Public_decode, keys.Private_decode, Data.decode. split; intros Hok.
  - rewrite (decode_N_size_exclusive size.public_key size.private_key W W s
               (keys.public_data pk) (keys.private_data sk) h h w w).
    + destruct sk; reflexivity.
    + discriminate.
    + destruct (base58.decode_N s (keys.public_data pk) h w) as [[r x] y].
      exact Hok.
  - rewrite (decode_N_size_exclusive size.private_key size.public_key W W s
               (keys.private_data sk) (keys.public_data pk) h h w w).
    + destruct pk; reflexivity.
    + discriminate.
    + destruct (base58.decode_N s (keys.private_data sk) h w) as [[r x] y].
      exact Hok.
Qed.

(** X4. Whatever the string, every error [decode<N>] hands to the handler
    has the value of [BADFORMAT] or of [UNEXPECTED_SIZE]; the value of
    [EMPTY] is never reported. *)
Theorem decode_N_never_reports_EMPTY (N : nat) (s : string) (d : array N) :
  Forall (fun ec =>
            ec_value ec <> error_int EMPTY /\
            (ec_value ec = error_int BADFORMAT \/
             ec_value ec = error_int UNEXPECTED_SIZE))
    (snd (base58.decode_N s d log_handler [])).
Proof.
  destruct (decode_N_cases N _ s d log_handler [])
    as [v Hv | v Hv Hn | v d' Hv Hn Hel]; simpl.
  - constructor; [| constructor].
    split; [discriminate | left; reflexivity].
  - constructor; [| constructor].
    split; [discriminate | right; reflexivity].
  - constructor.
Qed.



End Templates.

(** X7. [Pair::clean()] is idempotent, and the pair it leaves does not
    depend on the keys the pair held. *)
Theorem Pair_clean_forgets (p q : keys.Pair) :
  keys.Pair_clean (keys.Pair_clean p) = keys.Pair_clean p /\
  keys.Pair_clean p = keys.Pair_clean q.
Proof.
  assert (Hpk : forall a b : keys.Public, keys.Public_clean a = keys.Public_clean b).
  { intros a b. unfold keys.Public_clean, Data.clean. f_equal.
    apply array_eq. now rewrite !elems_fill. }
  assert (Hsk : forall a b : keys.Private, keys.Private_clean a = keys.Private_clean b).
  { intros a b. unfold keys.Private_clean, Data.clean. f_equal.
    apply array_eq. now rewrite !elems_fill. }
  unfold keys.Pair_clean; simpl. split; f_equal; auto.
Qed.

(* ================================================================= *)
(** * The templates over declared functions that form a codec *)

Section CodecLaw.
Context {L : Base58Lib}.

(** The declared [decode] gives back every payload that the declared
    [encode] was given with its checksum appended. *)
Hypothesis decode_inverts_encode :
  forall payload : bytes,
    decode (c_str (encode (payload ++ little_endian_u32 (crc32 payload)))) []
    = (true, payload).

(** X8. When the declared [decode] inverts the declared [encode] on
    checksummed buffers, [encode<N>] is injective, also across sizes: two
    buffers with the same encoding have the same size and the same bytes. *)
Theorem encode_N_injective (N M : nat) (a : array N) (b : array M) :
  base58.encode_N a = base58.encode_N b -> N = M /\ elems a = elems b.
Proof.
  intros Heq.
  assert (Hab : (true, elems a) = (true, elems b)).
  { rewrite <- (decode_inverts_encode (elems a)),
            <- (decode_inverts_encode (elems b)).
    rewrite <- !encode_N_unfold, Heq. reflexivity. }
  assert (Hel : elems a = elems b) by congruence.
  split; [| exact Hel].
  rewrite <- (elems_length N a), <- (elems_length M b), Hel. reflexivity.
Qed.

(** X9. When the declared [decode] inverts the declared [encode] on
    checksummed buffers, the encoding of an [N]-byte buffer decoded into a
    buffer of another size [M] is refused: the call returns false, leaves
    the buffer as it was and reports [UNEXPECTED_SIZE] with the sizes [N]
    and [M]. *)
Theorem decode_M_encode_N (N M : nat) (W : Type) (a : array N) (d : array M)
    (h : ErrorHandler W) (w : W) :
  N <> M ->
  base58.decode_N (base58.encode_N a) d h w
  = (false, d, h (unexpected_size_error N M) w).
Proof.
  intros Hne.
  pose proof (decode_inverts_encode (elems a)) as Hdec.
  rewrite <- encode_N_unfold in Hdec.
  destruct (decode_N_size_mismatch M W (base58.encode_N a) d h w (elems a) Hdec)
    as [Hres _].
  - rewrite elems_length. exact Hne.
  - rewrite Hres, elems_length. reflexivity.
Qed.

End CodecLaw.

(** The functions of [Base58Impl] form a codec. *)
Lemma impl_decode_inverts_encode (payload : bytes) :
  decode (c_str (encode (payload ++ little_endian_u32 (crc32 payload)))) []
  = (true, payload).
Proof.
  cbn [encode decode crc32 impl].
  rewrite (c_str_decode_alphabet _ _ (decode_alphabet_encode _)).
  unfold Base58Impl.decode. rewrite decode_check_encode. reflexivity.
Qed.

(* ================================================================= *)
(** * The further properties at concrete inputs *)

(** [decode_N_stops_at_NUL] at the encoding of 32 zero bytes followed by a
    NUL and the text [junk]: the call returns true. *)
Lemma decode_N_stops_at_NUL_at_zero :
  c_str "111111111111111111111111111111115RyRTN"
  = "111111111111111111111111111111115RyRTN"%string /\
  fst (fst (base58.decode_N "111111111111111111111111111111115RyRTN"
              (value_init 32) log_handler [])) = true /\
  base58.decode_N
    ("111111111111111111111111111111115RyRTN" ++ String zero "junk")
    (value_init 32) log_handler []
  = base58.decode_N "111111111111111111111111111111115RyRTN"
      (value_init 32) log_handler [].
Proof.
  assert (H1 : c_str "111111111111111111111111111111115RyRTN"
               = "111111111111111111111111111111115RyRTN"%string)
    by (vm_compute; reflexivity).
  split; [exact H1 | split; [vm_compute; reflexivity |]].
  apply (decode_N_stops_at_NUL 32 _
           "111111111111111111111111111111115RyRTN" "junk"
           (value_init 32) log_handler [] H1).
Defined.

(** [Public_Private_strings_disjoint] at the encoding of 32 zero bytes,
    which [Public::decode] accepts. *)
Lemma Public_Private_strings_disjoint_at_zero :
  fst (fst (keys.Public_decode "111111111111111111111111111111115RyRTN"
              (keys.mk_Public (value_init 32)) log_handler [])) = true /\
  keys.Private_decode "111111111111111111111111111111115RyRTN"
    (keys.mk_Private (value_init 64)) log_handler []
  = (false, keys.mk_Private (value_init 64), [unexpected_size_error 32 64]).
Proof.
  assert (H1 : fst (fst (keys.Public_decode
                           "111111111111111111111111111111115RyRTN"
                           (keys.mk_Public (value_init 32)) log_handler []))
               = true)
    by (vm_compute; reflexivity).
  split; [exact H1 |].
  apply (proj1 (Public_Private_strings_disjoint _
                  "111111111111111111111111111111115RyRTN"%string
                  (keys.mk_Public (value_init 32))
                  (keys.mk_Private (value_init 64)) log_handler []) H1).
Defined.

(** [encode_N_injective] with the functions of [Base58Impl], at two 32-byte
    buffers of zeros built in two ways. *)
Lemma encode_N_injective_at_zero :
  base58.encode_N (value_init 32) = base58.encode_N (fill (value_init 32) x00) /\
  32%nat = 32%nat /\
  elems (value_init 32) = elems (fill (value_init 32) x00).
Proof.
  assert (H1 : base58.encode_N (value_init 32)
               = base58.encode_N (fill (value_init 32) x00))
    by (vm_compute; reflexivity).
  split; [exact H1 |].
  apply (@encode_N_injective impl impl_decode_inverts_encode 32 32
           (value_init 32) (fill (value_init 32) x00) H1).
Defined.

(** [decode_M_encode_N] with the functions of [Base58Impl]: the encoding of
    64 zero bytes decoded into a 32-byte buffer. *)
Lemma decode_M_encode_N_at_64_32 :
  64%nat <> 32%nat /\
  base58.decode_N (base58.encode_N (value_init 64)) (value_init 32)
    log_handler []
  = (false, value_init 32, [unexpected_size_error 64 32]).
Proof.
  assert (H1 : 64%nat <> 32%nat) by lia.
  split; [exact H1 |].
  apply (@decode_M_encode_N impl impl_decode_inverts_encode 64 32 _
           (value_init 64) (value_init 32) log_handler [] H1).
Defined.
